(** * A model of [NormalizedHandwritingEngine] (src/HandwritingEngine.py)

    The glyph normalizer [process_letter_contour] and the page composer
    [generate] are embedded as Rocq functions.  OpenCV and the file system
    are external collaborators: they enter as section variables
    ([imread], [otsu_binarize], [find_contours], [resize_area], [listdir],
    [randbelow]), everything the repository itself computes is written out.

    Conventions.
    - Characters are [Ascii.ascii]; [str.lower] is ASCII lower-casing.
    - Grey-level rasters are [list (list Z)] (rows of pixels), as a 2-D numpy
      [uint8] array indexed [row][column].
    - The float products of constants ([safe_zone * 0.65], [std_size * 0.4],
      ...) are evaluated as exact rationals and truncated with [Z.quot]
      ([int()] truncates toward zero).  At [std_size = 50] none of these
      products lies within 10^-9 of an integer, so the truncation agrees
      with the IEEE computation.
    - The one product that depends on the input, [new_h * (w / h)], is
      computed in IEEE binary64 with Rocq's primitive floats, as Python does;
      its rounding can differ from the exact quotient.
    - Exceptions (a shape mismatch in a numpy assignment, [cv2.resize] with
      an empty [dsize], an ink component outside [uint8]) are the [Raises]
      outcome of the small error monad [res]. *)

From Stdlib Require Import Ascii String ZArith List Bool Lia Sorting.Sorted.
From Stdlib Require Floats.PrimFloat Floats.SpecFloat Floats.FloatOps.
From Stdlib Require Numbers.Cyclic.Int63.Uint63.
Import ListNotations.
Open Scope Z_scope.

(** ** Error monad: a Python call returns a value or raises. *)

Inductive res (A : Type) : Type :=
| Ok : A -> res A
| Raises : res A.
Arguments Ok {A} _.
Arguments Raises {A}.

Definition res_bind {A B} (m : res A) (k : A -> res B) : res B :=
  match m with Ok a => k a | Raises => Raises end.

Notation "x <- m ;; k" := (res_bind m (fun x => k))
  (at level 61, m at next level, right associativity).
Notation "' pat <- m ;; k" := (res_bind m (fun x => match x with pat => k end))
  (at level 61, pat pattern, m at next level, right associativity).


(** ** Constants set by [__init__] *)

Definition std_size : Z := 50.
Definition line_height : Z := 65.
Definition char_spacing : Z := 2.

Record Engine := mkEngine {
  base_path : string;
  ink_color : Z * Z * Z
}.

(** [NormalizedHandwritingEngine(ink_color=(0, 20, 100))], the instance the
    module builds. *)
Definition engine_default : Engine := mkEngine "my_letters" (0, 20, 100).

(** ** Characters *)

(** [str.lower] on one ASCII character. *)
Definition lower (c : ascii) : ascii :=
  let n := nat_of_ascii c in
  if andb (Nat.leb 65 n) (Nat.leb n 90) then ascii_of_nat (n + 32) else c.

Definition mem_char (c : ascii) (l : list ascii) : bool :=
  existsb (fun d => Ascii.eqb c d) l.

(** The double quote character. *)
Definition dquote : ascii := ascii_of_nat 34.

Definition small_punct : list ascii := ["."; ","; "'"; dquote; "`"; "-"]%char.
Definition tall_letters : list ascii := ["f"; "t"; "b"; "d"; "h"; "k"; "l"]%char.
Definition descenders : list ascii := ["g"; "j"; "p"; "q"; "y"]%char.
Definition short_letters : list ascii :=
  ["a"; "c"; "e"; "i"; "m"; "n"; "o"; "r"; "s"; "u"; "v"; "w"; "x"; "z"]%char.

(** [int(n * (p / 100))] for [n >= 0]: the product truncated toward zero. *)
Definition int_pct (n p : Z) : Z := Z.quot (n * p) 100.

Definition safe_zone : Z := std_size - 4.

(** Lines 64-73: [target_height] from the lower-cased character. *)
Definition target_height (char_type : ascii) : Z :=
  if mem_char char_type small_punct then int_pct safe_zone 20
  else if mem_char char_type tall_letters then int_pct safe_zone 65
  else if mem_char char_type descenders then int_pct safe_zone 65
  else if mem_char char_type short_letters then int_pct safe_zone 35
  else int_pct safe_zone 60.

Definition baseline_y : Z := int_pct std_size 70.

(** Lines 88-104: the vertical offset before the clamp. *)
Definition raw_start_y (char_type : ascii) (new_h : Z) : Z :=
  if mem_char char_type ["."; ","]%char then baseline_y - new_h
  else if mem_char char_type ["'"; dquote; "`"]%char then int_pct std_size 15
  else if mem_char char_type descenders then
    let short_letter_height := int_pct safe_zone 35 in
    let x_height_top := baseline_y - short_letter_height in
    x_height_top
  else baseline_y - new_h.

(** Lines 107-108: the two clamps, applied in order. *)
Definition clamp_start_y (start_y new_h : Z) : Z :=
  let s1 := if start_y <? 0 then 0 else start_y in
  if s1 + new_h >? std_size then std_size - new_h else s1.

(** [(new_h, start_y)] as computed for [char_ref] (lines 55, 64-108). *)
Definition placement (char_ref : ascii) : Z * Z :=
  let char_type := lower char_ref in
  let new_h := target_height char_type in
  (new_h, clamp_start_y (raw_start_y char_type new_h) new_h).

(** ** Rasters *)

Definition mat := list (list Z).

(** [arr.shape] of a 2-D array. *)
Definition mat_h (m : mat) : Z := Z.of_nat (length m).
Definition mat_w (m : mat) : Z :=
  match m with r :: _ => Z.of_nat (length r) | [] => 0 end.

(** [np.zeros((rows, cols), dtype=np.uint8)]. *)
Definition zeros (rows cols : Z) : mat :=
  repeat (repeat 0 (Z.to_nat cols)) (Z.to_nat rows).

(** A slice bound [i] of a sequence of length [len], as Python resolves it. *)
Definition norm_idx (i len : Z) : Z :=
  if i <? 0 then Z.max 0 (len + i) else Z.min i len.

(** [l[a:b]]. *)
Definition py_slice {A} (l : list A) (a b : Z) : list A :=
  let len := Z.of_nat (length l) in
  let a' := norm_idx a len in
  let b' := norm_idx b len in
  firstn (Z.to_nat (b' - a')) (skipn (Z.to_nat a') l).

(** [thresh[y:y+h, x:x+w]] (line 32). *)
Definition crop (m : mat) (x y w h : Z) : mat :=
  map (fun row => py_slice row x (x + w)) (py_slice m y (y + h)).

(** [cv2.copyMakeBorder(m, p, p, p, p, cv2.BORDER_CONSTANT, value=0)]. *)
Definition pad_border (p : Z) (m : mat) : mat :=
  let n := Z.to_nat p in
  let w := (Z.to_nat (mat_w m) + 2 * n)%nat in
  repeat (repeat 0 w) n
  ++ map (fun row => repeat 0 n ++ row ++ repeat 0 n) m
  ++ repeat (repeat 0 w) n.

(** ** Contours *)

(** A contour is the list of its vertices [(x, y)]. *)
Definition contour := list (Z * Z).

Fixpoint shoelace (first : Z * Z) (pts : list (Z * Z)) : Z :=
  match pts with
  | [] => 0
  | [(x1, y1)] => let '(x2, y2) := first in x1 * y2 - x2 * y1
  | (x1, y1) :: ((x2, y2) :: _) as rest => (x1 * y2 - x2 * y1) + shoelace first rest
  end.

(** Twice [cv2.contourArea(cnt)] (the absolute value of the Green formula
    over the closed polygon); twice the area is an integer. *)
Definition area2 (c : contour) : Z :=
  match c with [] => 0 | p :: _ => Z.abs (shoelace p c) end.

(** Line 27: [cv2.contourArea(cnt) > 10], i.e. [area2 cnt > 20]. *)
Definition is_valid_contour (c : contour) : bool := 20 <? area2 c.

(** Lines 27-28. *)
Definition retained_contours (contours : list contour) : list contour :=
  match filter is_valid_contour contours with
  | [] => contours
  | valid => valid
  end.

(** [cv2.boundingRect(points)]: [(x, y, w, h)] of the smallest upright
    integer rectangle holding every point. *)
Definition bounding_rect (pts : list (Z * Z)) : Z * Z * Z * Z :=
  match pts with
  | [] => (0, 0, 0, 0)
  | (x0, y0) :: _ =>
      let xmin := fold_left (fun a p => Z.min a (fst p)) pts x0 in
      let xmax := fold_left (fun a p => Z.max a (fst p)) pts x0 in
      let ymin := fold_left (fun a p => Z.min a (snd p)) pts y0 in
      let ymax := fold_left (fun a p => Z.max a (snd p)) pts y0 in
      (xmin, ymin, xmax - xmin + 1, ymax - ymin + 1)
  end.

(** ** Ink flow *)

Fixpoint zip_max (a b : list Z) : list Z :=
  match a, b with
  | x :: a', y :: b' => Z.max x y :: zip_max a' b'
  | _, _ => []
  end.

Fixpoint hmax_aux (prev : option Z) (row : list Z) : list Z :=
  match row with
  | [] => []
  | v :: t =>
      (match prev with None => v | Some p => Z.max p v end) :: hmax_aux (Some v) t
  end.

Fixpoint dilate_aux (prev : option (list Z)) (m : mat) : mat :=
  match m with
  | [] => []
  | r :: t =>
      let hr := hmax_aux None r in
      (match prev with None => hr | Some p => zip_max p hr end) :: dilate_aux (Some hr) t
  end.

(** One [cv2.dilate] with the 2x2 kernel of ones, anchor (1, 1): each pixel
    becomes the maximum over itself and its upper, left and upper-left
    neighbours that lie inside the image. *)
Definition dilate2x2 (m : mat) : mat := dilate_aux None m.

(** [cv2.threshold(m, 127, 255, cv2.THRESH_BINARY)[1]]. *)
Definition threshold127 (m : mat) : mat :=
  map (map (fun v => if 127 <? v then 255 else 0)) m.

(** ** Normalized glyphs *)

Definition pixel := (Z * Z * Z * Z)%type.

(** An RGBA image as produced by [Image.fromarray] on an [(H, W, 4)] array. *)
Definition glyph := list (list pixel).

Definition glyph_width (g : glyph) : Z :=
  match g with r :: _ => Z.of_nat (length r) | [] => 0 end.

(** Lines 117-119: RGB filled with [ink_color], alpha the mask.  Storing a
    Python [int] outside [0, 255] in the [uint8] array raises
    [OverflowError] (NumPy 2). *)
Definition uint8_ok (v : Z) : bool := (0 <=? v) && (v <=? 255).

Definition to_rgba (ink : Z * Z * Z) (alpha : mat) : res glyph :=
  let '(r, g, b) := ink in
  if uint8_ok r && uint8_ok g && uint8_ok b
  then Ok (map (map (fun a => (r, g, b, a))) alpha)
  else Raises.

(** [norm_canvas[sy:sy+nh, 0:new_w] = block] on a canvas whose width is
    [new_w]: the selected rows are replaced by [block], whose shape must be
    the one of the selection (numpy raises [ValueError] otherwise). *)
Definition assign_rows (canvas : mat) (sy nh new_w : Z) (block : mat) : res mat :=
  let len := Z.of_nat (length canvas) in
  let a := norm_idx sy len in
  let b := Z.max a (norm_idx (sy + nh) len) in
  if andb (Z.of_nat (length block) =? b - a)
          (forallb (fun r => Z.of_nat (length r) =? new_w) block)
  then Ok (firstn (Z.to_nat a) canvas ++ block ++ skipn (Z.to_nat b) canvas)
  else Raises.

Section Normalizer.

(** OpenCV, as the source calls it. *)
Variable Img : Type.
(** [cv2.imread]: [None] when the file cannot be decoded. *)
Variable imread : string -> option Img.
(** [cv2.cvtColor(img, COLOR_BGR2GRAY)] then
    [cv2.threshold(gray, 0, 255, THRESH_BINARY_INV + THRESH_OTSU)[1]]. *)
Variable otsu_binarize : Img -> mat.
(** [cv2.findContours(thresh, RETR_EXTERNAL, CHAIN_APPROX_SIMPLE)[0]]. *)
Variable find_contours : mat -> list contour.
(** [cv2.resize(src, (new_w, new_h), interpolation=INTER_AREA)] for a
    non-empty [dsize]. *)
Variable resize_area : mat -> Z -> Z -> mat.

(** [cv2.resize] refuses an empty [dsize] (with [fx = fy = 0]). *)
Definition cv_resize (src : mat) (new_w new_h : Z) : res mat :=
  if orb (new_w <=? 0) (new_h <=? 0) then Raises
  else Ok (resize_area src new_w new_h).

(** Lines 18-46: the padded crop of the ink, or [None]. *)
Definition locate_letter (image_path : string) : option mat :=
  match imread image_path with
  | None => None
  | Some img =>
      let thresh := otsu_binarize img in
      match find_contours thresh with
      | [] => None
      | contours =>
          let valid_contours := retained_contours contours in
          let '(x, y, w, h) := bounding_rect (concat valid_contours) in
          let roi_padding := 10 in
          Some (pad_border roi_padding (crop thresh x y w h))
      end
  end.

(** [float(n)] for a Python [int] below [2^63] in absolute value (image
    dimensions and heights, OpenCV sizes being C [int]s): the binary64 value
    nearest to [n], exact below [2^53]. *)
Definition py_float (n : Z) : PrimFloat.float :=
  if n <? 0 then PrimFloat.opp (PrimFloat.of_uint63 (Uint63.of_Z (- n)))
  else PrimFloat.of_uint63 (Uint63.of_Z n).

(** [int(f)] on a binary64 [f]: truncation toward zero; an infinity or a
    NaN raises ([OverflowError], [ValueError]). *)
Definition py_int (f : PrimFloat.float) : res Z :=
  match FloatOps.Prim2SF f with
  | SpecFloat.S754_zero _ => Ok 0
  | SpecFloat.S754_finite s m e =>
      let a := if 0 <=? e then Zpos m * 2 ^ e else Zpos m / 2 ^ (- e) in
      Ok (if s then - a else a)
  | _ => Raises
  end.

(** Lines 75-77: [aspect = w / h] (true division, [ZeroDivisionError] for
    [h = 0]) and [new_w = int(new_h * aspect)], in binary64. *)
Definition new_width (letter_roi : mat) (new_h : Z) : res Z :=
  let w := mat_w letter_roi in
  let h := mat_h letter_roi in
  if h =? 0 then Raises
  else
    let aspect := PrimFloat.div (py_float w) (py_float h) in
    py_int (PrimFloat.mul (py_float new_h) aspect).

(** Lines 55-121, from the padded crop. *)
Definition compose_letter (ink : Z * Z * Z) (letter_roi : mat) (char_ref : ascii)
  : res glyph :=
  let '(new_h, start_y) := placement char_ref in
  new_w <- new_width letter_roi new_h ;;
  resized <- cv_resize letter_roi new_w new_h ;;
  norm_canvas <- assign_rows (zeros std_size new_w) start_y new_h new_w resized ;;
  let norm_canvas := threshold127 (dilate2x2 (dilate2x2 norm_canvas)) in
  to_rgba ink norm_canvas.

(** [process_letter_contour(image_path, char_ref)]: [Ok None] is the
    [return None] of lines 19 and 25. *)
Definition process_letter_contour (e : Engine) (image_path : string) (char_ref : ascii)
  : res (option glyph) :=
  match locate_letter image_path with
  | None => Ok None
  | Some letter_roi =>
      g <- compose_letter (ink_color e) letter_roi char_ref ;;
      Ok (Some g)
  end.

End Normalizer.

(** ** The page composer [generate] *)

Definition start_x : Z := 200.
Definition start_y0 : Z := 200.
Definition max_x : Z := 2200.
Definition pixels_per_space : Z := int_pct std_size 40.
(** [fallback_width = int(self.std_size * 0.5)], the gap of a missing glyph. *)
Definition fallback_width : Z := int_pct std_size 50.

(** [SPECIAL_CHAR_MAP] (lines 128-132). *)
Definition special_char_map (c : ascii) : option string :=
  if Ascii.eqb c "." then Some "dot"%string
  else if Ascii.eqb c dquote then Some "quote"%string
  else if Ascii.eqb c ":" then Some "colon"%string
  else if Ascii.eqb c "?" then Some "question"%string
  else if Ascii.eqb c "*" then Some "asterisk"%string
  else if Ascii.eqb c "/" then Some "slash"%string
  else if Ascii.eqb c "\" then Some "backslash"%string
  else if Ascii.eqb c "<" then Some "lt"%string
  else if Ascii.eqb c ">" then Some "gt"%string
  else if Ascii.eqb c "|" then Some "pipe"%string
  else if Ascii.eqb c "," then Some "comma"%string
  else if Ascii.eqb c "'" then Some "apostrophe"%string
  else None.

(** Line 156: [SPECIAL_CHAR_MAP.get(char, char.lower())]. *)
Definition folder_name (c : ascii) : string :=
  match special_char_map c with
  | Some n => n
  | None => String (lower c) EmptyString
  end.

(** [s.endswith(suf)]. *)
Definition ends_with (suf s : string) : bool :=
  let n := String.length s in
  let k := String.length suf in
  Nat.leb k n && String.eqb (substring (n - k) k s) suf.

(** [os.path.join(a, b)] on POSIX. *)
Definition path_join (a b : string) : string :=
  match b with
  | String "/" _ => b
  | _ =>
      if orb (String.eqb a "") (ends_with "/" a) then a ++ b
      else a ++ "/" ++ b
  end%string.

Fixpoint lower_string (s : string) : string :=
  match s with
  | EmptyString => EmptyString
  | String c t => String (lower c) (lower_string t)
  end.

(** Line 162: [f.lower().endswith(('.png', '.jpg', '.jpeg'))]. *)
Definition is_image_file (f : string) : bool :=
  let l := lower_string f in
  ends_with ".png" l || ends_with ".jpg" l || ends_with ".jpeg" l.

(** A [word_items] entry: [(ImageObject or None, width)]. *)
Definition item := (option glyph * Z)%type.

(** A [canvas.paste(img, (x, y), img)] call. *)
Record paste := mkPaste { paste_img : glyph; paste_x : Z; paste_y : Z }.

(** The composer's state: the cursor, the paste calls made on the page
    canvas so far (in order), and the state of the [random] module. *)
Record state (RNG : Type) := mkState {
  curr_x : Z; curr_y : Z; pastes : list paste; rng : RNG
}.
Arguments mkState {RNG} _ _ _ _.
Arguments curr_x {RNG} _.
Arguments curr_y {RNG} _.
Arguments pastes {RNG} _.
Arguments rng {RNG} _.

Fixpoint split_on (sep : ascii) (s : list ascii) : list (list ascii) :=
  match s with
  | [] => [[]]
  | c :: t =>
      if Ascii.eqb c sep then [] :: split_on sep t
      else match split_on sep t with
           | w :: ws => (c :: w) :: ws
           | [] => [[c]]
           end
  end.

Section Composer.

Variable Img : Type.
Variable imread : string -> option Img.
Variable otsu_binarize : Img -> mat.
Variable find_contours : mat -> list contour.
Variable resize_area : mat -> Z -> Z -> mat.
(** The [random] module: [randbelow st n] is the index [random.choice]
    draws from a sequence of length [n], with the next state. *)
Variable RNG : Type.
Variable randbelow : RNG -> nat -> nat * RNG.
(** [os.path.isdir] and [os.listdir]: [None] when the path is no directory. *)
Variable listdir : string -> option (list string).

Definition process := process_letter_contour Img imread otsu_binarize find_contours resize_area.

(** [random.choice(variants)] for a non-empty [variants]. *)
Definition random_choice (st : RNG) (variants : list string) : string * RNG :=
  let '(i, st') := randbelow st (length variants) in
  (nth (i mod length variants) variants EmptyString, st').

(** Lines 156-180: the item recorded for one character ([if img:] holds for
    every PIL image, so a returned glyph always counts as found). *)
Definition char_item (e : Engine) (st : RNG) (c : ascii) : res (item * RNG) :=
  let char_dir := path_join (base_path e) (folder_name c) in
  match listdir char_dir with
  | None => Ok ((None, fallback_width), st)
  | Some entries =>
      match filter is_image_file entries with
      | [] => Ok ((None, fallback_width), st)
      | variants =>
          let '(f, st') := random_choice st variants in
          img <- process e (path_join char_dir f) c ;;
          match img with
          | Some g => Ok ((Some g, glyph_width g + char_spacing), st')
          | None => Ok ((None, fallback_width), st')
          end
      end
  end.

(** Lines 152-180: the items of a word and [word_total_width]. *)
Fixpoint word_items_aux (e : Engine) (st : RNG) (acc : list item) (total : Z)
    (word : list ascii) : res (list item * Z * RNG) :=
  match word with
  | [] => Ok (acc, total, st)
  | c :: cs =>
      '((img, width), st') <- char_item e st c ;;
      word_items_aux e st' (acc ++ [(img, width)]) (total + width) cs
  end.

Definition word_items (e : Engine) (st : RNG) (word : list ascii) :=
  word_items_aux e st [] 0 word.

End Composer.

(** Lines 188-196: paste every item that has an image, always advancing. *)
Fixpoint draw_items (x y : Z) (items : list item) : list paste * Z :=
  match items with
  | [] => ([], x)
  | (img, width) :: rest =>
      let '(ps, x_end) := draw_items (x + width) y rest in
      (match img with Some g => mkPaste g x y :: ps | None => ps end, x_end)
  end.

(** Lines 183-185: the wrap decision, taken once for the whole word. *)
Definition wrap_cursor (x y word_total_width : Z) : Z * Z :=
  if x + word_total_width >? max_x then (start_x, y + line_height) else (x, y).

Section Generate.

Variable Img : Type.
Variable imread : string -> option Img.
Variable otsu_binarize : Img -> mat.
Variable find_contours : mat -> list contour.
Variable resize_area : mat -> Z -> Z -> mat.
Variable RNG : Type.
Variable randbelow : RNG -> nat -> nat * RNG.
Variable listdir : string -> option (list string).

Let word_items' := word_items Img imread otsu_binarize find_contours resize_area
  RNG randbelow listdir.

(** Lines 152-198: one word of a line. *)
Definition word_step (e : Engine) (s : state RNG) (word : list ascii) : res (state RNG) :=
  '(items, word_total_width, st') <- word_items' e (rng s) word ;;
  let '(x, y) := wrap_cursor (curr_x s) (curr_y s) word_total_width in
  let '(ps, x_end) := draw_items x y items in
  Ok (mkState (x_end + pixels_per_space) y (pastes s ++ ps) st').

Fixpoint words_loop (e : Engine) (s : state RNG) (words : list (list ascii)) : res (state RNG) :=
  match words with
  | [] => Ok s
  | w :: ws => s' <- word_step e s w ;; words_loop e s' ws
  end.

(** Lines 146-201. *)
Fixpoint lines_loop (e : Engine) (s : state RNG) (lines : list (list ascii)) : res (state RNG) :=
  match lines with
  | [] => Ok s
  | l :: ls =>
      s' <- words_loop e s (split_on " " l) ;;
      lines_loop e (mkState start_x (curr_y s' + line_height) (pastes s') (rng s')) ls
  end.

(** [generate(text)] up to the saving step: the final composer state, whose
    [pastes] are the calls made on the white page canvas. *)
Definition generate (e : Engine) (st : RNG) (text : list ascii) : res (state RNG) :=
  lines_loop e (mkState start_x start_y0 [] st) (split_on (ascii_of_nat 10) text).

End Generate.

(** ** A concrete OpenCV stand-in, used to run the model on examples *)

(** Nearest-neighbour resampling to [new_h] rows of [new_w] pixels. *)
Definition resize_nearest (src : mat) (new_w new_h : Z) : mat :=
  let sh := mat_h src in
  let sw := mat_w src in
  map (fun i =>
         let row := nth (Z.to_nat (i * sh / new_h)) src [] in
         map (fun j => nth (Z.to_nat (j * sw / new_w)) row 0)
             (map Z.of_nat (seq 0 (Z.to_nat new_w))))
      (map Z.of_nat (seq 0 (Z.to_nat new_h))).

(** A 30 x 20 sample (rows x columns) already binarized: ink on rows 5-24,
    columns 4-13. *)
Definition sample_a : mat :=
  map (fun i => map (fun j =>
         if andb (andb (5 <=? i) (i <=? 24)) (andb (4 <=? j) (j <=? 13)) then 255 else 0)
       (map Z.of_nat (seq 0 20))) (map Z.of_nat (seq 0 30)).

Definition sample_contours (m : mat) : list contour :=
  [[(4, 5); (4, 24); (13, 24); (13, 5)]].

Definition sample_read (p : string) : option mat :=
  if String.eqb p "my_letters/a/1.png" then Some sample_a else None.

Definition run_sample (c : ascii) :=
  process_letter_contour mat sample_read (fun m => m) sample_contours resize_nearest
    engine_default "my_letters/a/1.png" c.

(** The glyph normalized from [sample_a] as an ['a']. *)
Definition sample_glyph : glyph :=
  match run_sample "a"%char with Ok (Some g) => g | _ => [] end.

(** Two contours of a thresholded image: a 6 x 3 pixel blot, whose polygon
    has area exactly 10, and a 10 x 20 stroke. *)
Definition blot10 : contour := [(0, 0); (0, 2); (5, 2); (5, 0)].
Definition stroke : contour := [(4, 5); (4, 24); (13, 24); (13, 5)].

Definition sample_dir (p : string) : option (list string) :=
  if String.eqb p "my_letters/a" then Some ["1.png"; "notes.txt"]%string
  else if String.eqb p "my_letters/b" then Some ["x.txt"]%string
  else None.


(** The sum of the widths of a word's items. *)
Definition items_width (items : list item) : Z :=
  fold_right (fun it a => snd it + a) 0 items.

Definition res_map {A B} (f : A -> B) (m : res A) : res B :=
  match m with Ok a => Ok (f a) | Raises => Raises end.

(** The [random] module of the examples: a counter, [randbelow] returns it. *)
Definition sample_randbelow (st : nat) (n : nat) : nat * nat := (st, S st).

(** A [random] module whose draws all pick the first sample. *)
Definition sample_pick_first (st : nat) (n : nat) : nat * nat := (0%nat, S st).

(** The cursor near the right margin, before the word ["a"]. *)
Definition sample_state : state nat := mkState 2190 200 [] 0%nat.

Definition sample_after : state nat :=
  match word_step mat sample_read (fun m => m) sample_contours resize_nearest nat
          sample_randbelow sample_dir engine_default sample_state
          (list_ascii_of_string "a") with
  | Ok s => s
  | Raises => sample_state
  end.

(** One contour around rows 5-13 and columns 4-14 of [sample_a]: a 9 x 11
    crop, 29 x 31 once padded. *)
Definition narrow_contours (m : mat) : list contour :=
  [[(4, 5); (4, 13); (14, 13); (14, 5)]].

Definition narrow_roi : mat :=
  match locate_letter mat sample_read (fun m => m) narrow_contours "my_letters/a/1.png" with
  | Some roi => roi
  | None => []
  end.

(** The glyph normalized from that crop as an ['f'] ([new_h = 29]). *)
Definition narrow_glyph_f : glyph :=
  match process_letter_contour mat sample_read (fun m => m) narrow_contours resize_nearest
          engine_default "my_letters/a/1.png" "f"%char with
  | Ok (Some g) => g
  | _ => []
  end.

(** ** Specification-side definitions *)

(** [new_w] as the specification words it: [new_h * w / h] of the padded
    crop in exact arithmetic, truncated. *)
Definition spec_new_width (letter_roi : mat) (new_h : Z) : Z :=
  Z.quot (new_h * mat_w letter_roi) (mat_h letter_roi).

(** The ratio table of the specification, in percent of the safe zone. *)
Definition spec_ratio_pct (char_type : ascii) : Z :=
  if mem_char char_type small_punct then 20
  else if mem_char char_type tall_letters then 65
  else if mem_char char_type descenders then 65
  else if mem_char char_type short_letters then 35
  else 60.

(** Lines 27-28 as the specification words them: discard the contours whose
    area is below the minimum of 10, unless that discards them all. *)
Definition spec_retained_contours (contours : list contour) : list contour :=
  match filter (fun c => 20 <=? area2 c) contours with
  | [] => contours
  | valid => valid
  end.

(** [round(n * p / 100)] for [n, p >= 0] (no product here is a tie). *)
Definition round_pct (n p : Z) : Z := (2 * n * p + 100) / 200.

(** Shape of rasters: every row has [n] pixels. *)
Definition rows_of {A} (n : nat) (m : list (list A)) : Prop :=
  Forall (fun r => length r = n) m.

(** ** Definitions for the further properties *)

(** Every ASCII character. *)
Definition all_ascii : list ascii := map ascii_of_nat (seq 0 256).

Definition is_none {A} (o : option A) : bool :=
  match o with None => true | Some _ => false end.

(** Two characters share a sample folder exactly when they are equal, or
    both are outside [SPECIAL_CHAR_MAP] and equal up to case. *)
Definition folder_collision_ok (c d : ascii) : bool :=
  Bool.eqb (String.eqb (folder_name c) (folder_name d))
           (Ascii.eqb c d
            || (is_none (special_char_map c) && is_none (special_char_map d)
                && Ascii.eqb (lower c) (lower d))).

(** [m[i, j]], or [None] out of range. *)
Definition get (m : mat) (i j : nat) : option Z :=
  match nth_error m i with Some r => nth_error r j | None => None end.

(** A glyph as [process_letter_contour] returns it: [std_size] rows and a
    binary alpha channel. *)
Definition glyph_ok (g : glyph) : Prop :=
  Z.of_nat (length g) = std_size
  /\ Forall (Forall (fun px : pixel => let '(_, _, _, a) := px in a = 0 \/ a = 255)) g.

(** An entry of [word_items]: a non-negative width and, if present, a
    normalized glyph. *)
Definition item_ok (it : item) : Prop :=
  0 <= snd it /\ forall g, fst it = Some g -> glyph_ok g.

(** The layout invariant of [generate]: the cursor and every paste lie at or
    right of [start_x] and at or below [start_y0], every pasted glyph is
    normalized, no paste lies below the cursor line, and the paste calls go
    top to bottom. *)
Definition page_inv {RNG} (s : state RNG) : Prop :=
  start_x <= curr_x s /\ start_y0 <= curr_y s
  /\ Forall (fun p => glyph_ok (paste_img p) /\ start_x <= paste_x p
                      /\ start_y0 <= paste_y p /\ paste_y p <= curr_y s) (pastes s)
  /\ Sorted.StronglySorted Z.le (map paste_y (pastes s)).

(** The number of occurrences of [sep] in [s]. *)
Definition count_char (sep : ascii) (s : list ascii) : nat :=
  length (filter (fun c => Ascii.eqb c sep) s).

(** The page composed from ["a zb"] newline ["aa"] with the sample store. *)
Definition sample_page : state nat :=
  match generate mat sample_read (fun m => m) sample_contours resize_nearest nat
          sample_randbelow sample_dir engine_default 0%nat
          (list_ascii_of_string "a zb" ++ [ascii_of_nat 10] ++ list_ascii_of_string "aa") with
  | Ok s => s
  | Raises => mkState 0 0 [] 0%nat
  end.

(** ** Runs of the model *)

Example ex_t : map (fun c => target_height c) ["."; "f"; "g"; "a"; "Q"]%char = [9; 29; 29; 16; 27].
Proof. reflexivity. Qed.

Example generate_sample :
  match generate mat sample_read (fun m => m) sample_contours resize_nearest nat
          (fun s n => (s, S s)) sample_dir engine_default 0%nat
          (list_ascii_of_string "a zb") with
  | Ok s => Some (curr_x s, curr_y s,
                  map (fun p => (paste_x p, paste_y p, glyph_width (paste_img p))) (pastes s))
  | Raises => None
  end = Some (200, 265, [(200, 200, 12)]).
Proof. vm_compute. reflexivity. Qed.

(** ** Helper lemmas *)

Lemma mem_char_In (c : ascii) (l : list ascii) : mem_char c l = true -> In c l.
Proof.
  unfold mem_char. intros H. apply existsb_exists in H as [d [Hd Heq]].
  apply Ascii.eqb_eq in Heq. subst. exact Hd.
Qed.

Lemma clamp_start_y_bounds (s nh : Z) :
  0 <= nh <= std_size ->
  0 <= clamp_start_y s nh /\ clamp_start_y s nh + nh <= std_size.
Proof.
  unfold clamp_start_y, std_size. intros Hnh.
  destruct (s <? 0) eqn:E1; [apply Z.ltb_lt in E1 | apply Z.ltb_ge in E1];
  match goal with |- context [if ?b then _ else _] =>
    destruct b eqn:E2; [apply Z.gtb_lt in E2 | rewrite Z.gtb_ltb in E2; apply Z.ltb_ge in E2] end;
  lia.
Qed.

Lemma target_height_bounds (t : ascii) : 9 <= target_height t <= 29.
Proof.
  unfold target_height.
  repeat match goal with |- context [if ?b then _ else _] => destruct b end;
  vm_compute; split; discriminate.
Qed.



Lemma norm_idx_bounds (i len : Z) : 0 <= len -> 0 <= norm_idx i len <= len.
Proof. unfold norm_idx. intros H. destruct (i <? 0) eqn:E; [apply Z.ltb_lt in E | apply Z.ltb_ge in E]; lia. Qed.

Lemma Forall_firstn' {A} (P : A -> Prop) (n : nat) (l : list A) :
  Forall P l -> Forall P (firstn n l).
Proof.
  revert l; induction n as [|n IH]; intros [|x l] H; simpl; auto.
  inversion H; subst. constructor; auto.
Qed.

Lemma Forall_skipn' {A} (P : A -> Prop) (n : nat) (l : list A) :
  Forall P l -> Forall P (skipn n l).
Proof.
  revert l; induction n as [|n IH]; intros [|x l] H; simpl; auto.
  inversion H; subst. auto.
Qed.

Lemma assign_rows_shape (canvas block m : mat) (sy nh w : Z) :
  assign_rows canvas sy nh w block = Ok m ->
  rows_of (Z.to_nat w) canvas ->
  length m = length canvas /\ rows_of (Z.to_nat w) m.
Proof.
  unfold assign_rows, rows_of. intros H Hc.
  set (len := Z.of_nat (length canvas)) in H.
  pose proof (norm_idx_bounds sy len ltac:(lia)) as Ha.
  pose proof (norm_idx_bounds (sy + nh) len ltac:(lia)) as Hb.
  destruct (andb _ _) eqn:E; [| discriminate].
  injection H as <-. apply andb_true_iff in E as [E1 E2].
  apply Z.eqb_eq in E1.
  split.
  - rewrite !length_app, length_firstn, length_skipn. lia.
  - apply Forall_app; split; [apply Forall_firstn'; exact Hc |].
    apply Forall_app; split; [| apply Forall_skipn'; exact Hc].
    apply Forall_forall. intros r Hr.
    rewrite forallb_forall in E2. specialize (E2 r Hr). apply Z.eqb_eq in E2. lia.
Qed.

Lemma zeros_shape (rows cols : Z) :
  length (zeros rows cols) = Z.to_nat rows /\ rows_of (Z.to_nat cols) (zeros rows cols).
Proof.
  unfold zeros, rows_of. split; [apply repeat_length |].
  apply Forall_forall. intros r Hr. apply repeat_spec in Hr. subst. apply repeat_length.
Qed.

Lemma hmax_aux_length (p : option Z) (r : list Z) : length (hmax_aux p r) = length r.
Proof. revert p; induction r; intros p; simpl; auto. Qed.

Lemma zip_max_length (a b : list Z) : length a = length b -> length (zip_max a b) = length a.
Proof. revert b; induction a; intros [|y b] H; simpl in *; try discriminate; auto. Qed.

Lemma dilate_aux_shape (n : nat) (prev : option (list Z)) (m : mat) :
  rows_of n m -> (forall p, prev = Some p -> length p = n) ->
  length (dilate_aux prev m) = length m /\ rows_of n (dilate_aux prev m).
Proof.
  unfold rows_of. revert prev; induction m as [|r m IH]; intros prev Hm Hp; simpl; [auto |].
  inversion Hm; subst.
  destruct (IH (Some (hmax_aux None r))) as [IH1 IH2]; auto.
  { intros p Hq; injection Hq as <-. apply hmax_aux_length. }
  split; [simpl; auto |]. constructor; auto.
  destruct prev as [p|].
  - rewrite zip_max_length; rewrite ?hmax_aux_length; auto.
  - apply hmax_aux_length.
Qed.

Lemma dilate2x2_shape (n : nat) (m : mat) :
  rows_of n m -> length (dilate2x2 m) = length m /\ rows_of n (dilate2x2 m).
Proof. intros H. apply dilate_aux_shape; auto. discriminate. Qed.

Lemma threshold127_shape (n : nat) (m : mat) :
  rows_of n m -> length (threshold127 m) = length m /\ rows_of n (threshold127 m).
Proof.
  unfold threshold127, rows_of. intros H. rewrite length_map. split; auto.
  apply Forall_map. eapply Forall_impl; [| exact H]. intros r Hr. simpl. rewrite length_map. exact Hr.
Qed.

Lemma to_rgba_shape (n : nat) (ink : Z * Z * Z) (m : mat) (g : glyph) :
  rows_of n m -> to_rgba ink m = Ok g -> length g = length m /\ rows_of n g.
Proof.
  destruct ink as [[r gr] b]. unfold to_rgba, rows_of. intros H.
  destruct (_ && _); [| discriminate]. intros E. injection E as <-.
  rewrite length_map. split; auto.
  apply Forall_map. eapply Forall_impl; [| exact H]. intros row Hr. simpl. rewrite length_map. exact Hr.
Qed.

Lemma threshold127_binary (m : mat) :
  Forall (Forall (fun v => v = 0 \/ v = 255)) (threshold127 m).
Proof.
  unfold threshold127. apply Forall_forall. intros r Hr. apply in_map_iff in Hr as [r0 [<- _]].
  apply Forall_forall. intros v Hv. apply in_map_iff in Hv as [v0 [<- _]].
  destruct (127 <? v0); auto.
Qed.

Lemma compose_letter_shape resize_area ink roi c g :
  compose_letter resize_area ink roi c = Ok g ->
  exists new_w, new_width roi (fst (placement c)) = Ok new_w /\
  Z.of_nat (length g) = std_size /\
  rows_of (Z.to_nat new_w) g /\ 0 < new_w.
Proof.
  unfold compose_letter. destruct (placement c) as [nh sy]. simpl fst.
  destruct (new_width roi nh) as [nw|] eqn:Enw; [| discriminate]. simpl.
  intros H. exists nw. split; [reflexivity |]. revert H.
  unfold cv_resize.
  destruct (orb _ _) eqn:Ew; [discriminate |]. apply orb_false_iff in Ew as [Ew1 Ew2].
  apply Z.leb_gt in Ew1.
  simpl. destruct (assign_rows _ _ _ _ _) as [cv|] eqn:Ea; [| discriminate].
  simpl. intros H.
  destruct (zeros_shape std_size nw) as [Z1 Z2].
  destruct (assign_rows_shape _ _ _ _ _ _ Ea Z2) as [A1 A2].
  destruct (dilate2x2_shape _ _ A2) as [D1 D2].
  destruct (dilate2x2_shape _ _ D2) as [E1 E2].
  destruct (threshold127_shape _ _ E2) as [T1 T2].
  destruct (to_rgba_shape _ ink _ _ T2 H) as [R1 R2].
  split; [| split; [exact R2 | lia]].
  rewrite R1, T1, E1, D1, A1, Z1. reflexivity.
Qed.

Lemma compose_letter_pixels resize_area ink roi c g :
  compose_letter resize_area ink roi c = Ok g ->
  exists alpha, to_rgba ink (threshold127 alpha) = Ok g.
Proof.
  unfold compose_letter. destruct (placement c) as [nh sy].
  destruct (new_width roi nh); [| discriminate]. simpl.
  unfold cv_resize. destruct (orb _ _); [discriminate |].
  simpl. destruct (assign_rows _ _ _ _ _); [| discriminate].
  simpl. intros H. eauto.
Qed.

Lemma word_items_aux_total Img imread otsu_binarize find_contours resize_area RNG randbelow
    listdir e (word : list ascii) :
  forall st acc total items t st',
  word_items_aux Img imread otsu_binarize find_contours resize_area RNG randbelow listdir
    e st acc total word = Ok (items, t, st') ->
  exists fresh, items = acc ++ fresh /\ t = total + items_width fresh.
Proof.
  induction word as [|c cs IH]; intros st acc total items t st' H; simpl in H.
  - injection H as <- <- <-. exists []. rewrite app_nil_r. simpl. split; [reflexivity | lia].
  - destruct (char_item _ _ _ _ _ _ _ _ e st c) as [[[img width] st1]|]; [| discriminate].
    simpl in H. apply IH in H as [fresh [-> ->]].
    exists ((img, width) :: fresh). rewrite <- app_assoc. split; [reflexivity |].
    simpl. lia.
Qed.

Lemma draw_items_props (x y : Z) (items : list item) :
  Forall (fun p => paste_y p = y) (fst (draw_items x y items))
  /\ snd (draw_items x y items) = x + items_width items.
Proof.
  revert x; induction items as [|[img width] rest IH]; intros x; simpl; [split; auto; lia |].
  destruct (IH (x + width)) as [IH1 IH2].
  destruct (draw_items (x + width) y rest) as [ps x_end]. simpl in *.
  split; [| lia].
  destruct img; auto.
Qed.

(** ** Claims *)

(** C1 (as stated): the resized height is [round(ratio * (std_size - 4))].
    False: for ['f'] the code uses [int(46 * 0.65) = 29], not 30. *)
Lemma C1_round_height_counterexample :
  ~ (forall c : ascii,
       fst (placement c) = round_pct (std_size - 4) (spec_ratio_pct (lower c))).
Proof.
  intros H. specialize (H "f"%char). vm_compute in H. discriminate H.
Qed.

(** C1 (amended): the resized height [new_h] is [int(ratio * (std_size - 4))],
    the product truncated toward zero, with the ratio table of the
    specification; at [std_size = 50] this is 9 for small punctuation, 29 for
    tall ascenders and descenders, 16 for short letters and 27 otherwise. *)
Theorem C1_height_truncated (c : ascii) :
  fst (placement c) = Z.quot (spec_ratio_pct (lower c) * (std_size - 4)) 100
  /\ fst (placement c) =
     (if mem_char (lower c) small_punct then 9
      else if mem_char (lower c) tall_letters then 29
      else if mem_char (lower c) descenders then 29
      else if mem_char (lower c) short_letters then 16
      else 27).
Proof.
  unfold placement, target_height, spec_ratio_pct; cbv beta zeta; cbn [fst].
  destruct (mem_char (lower c) small_punct); [split; reflexivity |].
  destruct (mem_char (lower c) tall_letters); [split; reflexivity |].
  destruct (mem_char (lower c) descenders); [split; reflexivity |].
  destruct (mem_char (lower c) short_letters); split; reflexivity.
Qed.

(** C2: a descender and a short letter are placed at the same vertical
    offset, [baseline_y - int(0.35 * safe_zone)] (19 at [std_size = 50]). *)
Theorem C2_descender_short_same_top (d s : ascii) :
  mem_char (lower d) descenders = true ->
  mem_char (lower s) short_letters = true ->
  snd (placement d) = snd (placement s)
  /\ snd (placement s) = baseline_y - target_height (lower s).
Proof.
  intros Hd Hs. unfold placement.
  apply mem_char_In in Hd. apply mem_char_In in Hs.
  destruct (lower d); destruct (lower s);
  simpl in Hd, Hs;
  repeat (destruct Hd as [Hd | Hd]; [inversion Hd; subst | ]); try contradiction;
  repeat (destruct Hs as [Hs | Hs]; [inversion Hs; subst | ]); try contradiction;
  split; reflexivity.
Qed.

Lemma C2_witness :
  mem_char (lower "g") descenders = true /\ mem_char (lower "a") short_letters = true
  /\ snd (placement "g") = snd (placement "a")
  /\ snd (placement "a") = baseline_y - target_height (lower "a").
Proof.
  split; [reflexivity | split; [reflexivity | ]].
  apply (C2_descender_short_same_top "g" "a"); reflexivity.
Defined.

(** C6: after the clamps the offset lies in the canvas:
    [0 <= start_y] and [start_y + new_h <= std_size]. *)
Theorem C6_start_y_in_canvas (c : ascii) :
  0 <= snd (placement c) /\ snd (placement c) + fst (placement c) <= std_size.
Proof.
  unfold placement; simpl fst; simpl snd.
  apply clamp_start_y_bounds.
  pose proof (target_height_bounds (lower c)). unfold std_size. lia.
Qed.

(** C5 (as stated): every row of a returned glyph has [new_h * w / h]
    pixels, the exact quotient truncated, [w] and [h] being the width and
    height of the padded crop.  False: on a 29 x 31 padded crop an ['f']
    ([new_h = 29]) gets [int(29 * (31 / 29)) = int(30.999999999999996) = 30]
    pixels per row in binary64, not 31. *)
Lemma C5_exact_width_counterexample :
  ~ (forall (c : ascii) (g : glyph) (roi : mat),
       process_letter_contour mat sample_read (fun m => m) narrow_contours resize_nearest
         engine_default "my_letters/a/1.png" c = Ok (Some g) ->
       locate_letter mat sample_read (fun m => m) narrow_contours "my_letters/a/1.png"
         = Some roi ->
       Forall (fun row => Z.of_nat (length row) = spec_new_width roi (fst (placement c))) g).
Proof.
  intros H.
  assert (Ep : process_letter_contour mat sample_read (fun m => m) narrow_contours
                 resize_nearest engine_default "my_letters/a/1.png" "f"
               = Ok (Some narrow_glyph_f)) by (vm_compute; reflexivity).
  assert (El : locate_letter mat sample_read (fun m => m) narrow_contours
                 "my_letters/a/1.png" = Some narrow_roi) by (vm_compute; reflexivity).
  assert (Eg : exists row rest, narrow_glyph_f = row :: rest /\ Z.of_nat (length row) = 30)
    by (vm_compute; do 2 eexists; split; reflexivity).
  assert (Es : spec_new_width narrow_roi (fst (placement "f")) = 31) by (vm_compute; reflexivity).
  pose proof (H "f"%char _ _ Ep El) as Hf.
  destruct Eg as [row [rest [Eg Er]]]. rewrite Eg in Hf.
  apply Forall_inv in Hf. rewrite Es, Er in Hf. discriminate Hf.
Qed.

(** C5 (amended): every glyph returned by [process_letter_contour] has
    [std_size] rows, and every row has [new_w] pixels, [new_w > 0] being
    [int(new_h * (w / h))] evaluated in binary64 ([new_width]), [w] and [h]
    the width and height of the padded crop. *)
Theorem C5_glyph_height_and_width Img imread otsu_binarize find_contours resize_area
    (e : Engine) (p : string) (c : ascii) (g : glyph) :
  process_letter_contour Img imread otsu_binarize find_contours resize_area e p c = Ok (Some g) ->
  exists roi new_w,
    locate_letter Img imread otsu_binarize find_contours p = Some roi
    /\ new_width roi (fst (placement c)) = Ok new_w
    /\ 0 < new_w
    /\ Z.of_nat (length g) = std_size
    /\ Forall (fun row => Z.of_nat (length row) = new_w) g.
Proof.
  unfold process_letter_contour.
  destruct (locate_letter _ _ _ _ p) as [roi|]; [| discriminate].
  destruct (compose_letter _ _ _ _) as [g'|] eqn:Ec; [| discriminate].
  simpl. intros H. injection H as <-.
  destruct (compose_letter_shape _ _ _ _ _ Ec) as [nw [Hn [H1 [H2 H3]]]].
  exists roi, nw. split; [reflexivity | split; [exact Hn | split; [exact H3 | split; [exact H1 |]]]].
  eapply Forall_impl; [| exact H2]. intros row Hr. cbv beta. rewrite Hr.
  rewrite Z2Nat.id by lia. reflexivity.
Qed.

Lemma C5_witness :
  process_letter_contour mat sample_read (fun m => m) narrow_contours resize_nearest
    engine_default "my_letters/a/1.png" "f" = Ok (Some narrow_glyph_f)
  /\ exists roi new_w,
    locate_letter mat sample_read (fun m => m) narrow_contours "my_letters/a/1.png" = Some roi
    /\ new_width roi (fst (placement "f")) = Ok new_w
    /\ 0 < new_w
    /\ Z.of_nat (length narrow_glyph_f) = std_size
    /\ Forall (fun row => Z.of_nat (length row) = new_w) narrow_glyph_f.
Proof.
  split; [vm_compute; reflexivity |].
  apply (C5_glyph_height_and_width mat sample_read (fun m => m) narrow_contours resize_nearest
           engine_default). vm_compute. reflexivity.
Defined.

(** C10: the alpha channel of a returned glyph is binary (0 or 255) and
    every RGB triple is the ink color, for an ink color of [uint8]
    components. *)
Theorem C10_binary_alpha_ink_rgb Img imread otsu_binarize find_contours resize_area
    (e : Engine) (p : string) (c : ascii) (g : glyph) (r gr b : Z) :
  process_letter_contour Img imread otsu_binarize find_contours resize_area e p c = Ok (Some g) ->
  ink_color e = (r, gr, b) ->
  0 <= r <= 255 -> 0 <= gr <= 255 -> 0 <= b <= 255 ->
  Forall (Forall (fun px : pixel =>
    let '(pr, pg, pb, pa) := px in (pr, pg, pb) = (r, gr, b) /\ (pa = 0 \/ pa = 255))) g.
Proof.
  unfold process_letter_contour. intros H Hink Hr Hg Hb.
  destruct (locate_letter _ _ _ _ p) as [roi|]; [| discriminate].
  destruct (compose_letter _ _ _ _) as [g'|] eqn:Ec; [| discriminate].
  simpl in H. injection H as <-.
  destruct (compose_letter_pixels _ _ _ _ _ Ec) as [alpha Ea].
  rewrite Hink in Ea. unfold to_rgba in Ea.
  destruct (_ && _); [| discriminate]. injection Ea as <-.
  pose proof (threshold127_binary alpha) as Hbin.
  apply Forall_map. eapply Forall_impl; [| exact Hbin]. intros row Hrow.
  apply Forall_map. eapply Forall_impl; [| exact Hrow]. intros v Hv. auto.
Qed.

Lemma C10_witness :
  process_letter_contour mat sample_read (fun m => m) sample_contours resize_nearest
    engine_default "my_letters/a/1.png" "a" = Ok (Some sample_glyph)
  /\ Forall (Forall (fun px : pixel =>
       let '(pr, pg, pb, pa) := px in (pr, pg, pb) = (0, 20, 100) /\ (pa = 0 \/ pa = 255)))
       sample_glyph.
Proof.
  split; [vm_compute; reflexivity |].
  apply (C10_binary_alpha_ink_rgb mat sample_read (fun m => m) sample_contours resize_nearest
           engine_default "my_letters/a/1.png" "a"); first [vm_compute; reflexivity | lia].
Defined.

(** C8: [process_letter_contour] returns [None] (and does not raise) when
    the image cannot be read or when thresholding yields no contour. *)
Theorem C8_no_glyph_signal Img imread otsu_binarize find_contours resize_area
    (e : Engine) (p : string) (c : ascii) :
  (imread p = None
   \/ exists img, imread p = Some img /\ find_contours (otsu_binarize img) = []) ->
  process_letter_contour Img imread otsu_binarize find_contours resize_area e p c = Ok None.
Proof.
  unfold process_letter_contour, locate_letter.
  intros [H | [img [H1 H2]]]; [rewrite H | rewrite H1, H2]; reflexivity.
Qed.

Lemma C8_witness :
  (sample_read "missing.png" = None
   \/ exists img, sample_read "missing.png" = Some img
                  /\ sample_contours ((fun m => m) img) = [])
  /\ process_letter_contour mat sample_read (fun m => m) sample_contours resize_nearest
       engine_default "missing.png" "a" = Ok None.
Proof.
  split; [left; reflexivity |].
  apply (C8_no_glyph_signal mat sample_read (fun m => m) sample_contours resize_nearest).
  left; reflexivity.
Defined.

(** C7 (as stated): the contours discarded are exactly those of area below
    10.  False: a contour of area exactly 10 is discarded as well. *)
Lemma C7_area_threshold_counterexample :
  ~ (forall contours, retained_contours contours = spec_retained_contours contours).
Proof.
  intros H. specialize (H [blot10; stroke]). vm_compute in H. discriminate H.
Qed.

(** C7 (amended): the retained contours are those of area strictly above
    10, or all contours when none is; the crop is the bounding box of the
    retained contours' points, padded by 10. *)
Theorem C7_contour_filter Img imread otsu_binarize find_contours
    (p : string) (img : Img) :
  imread p = Some img ->
  find_contours (otsu_binarize img) <> [] ->
  let contours := find_contours (otsu_binarize img) in
  (forall cnt, In cnt (retained_contours contours)
               <-> In cnt contours
                   /\ (20 < area2 cnt \/ Forall (fun c' => area2 c' <= 20) contours))
  /\ locate_letter Img imread otsu_binarize find_contours p
     = Some (let '(x, y, w, h) := bounding_rect (concat (retained_contours contours)) in
             pad_border 10 (crop (otsu_binarize img) x y w h)).
Proof.
  intros Hread Hne contours. split.
  - intros cnt. unfold retained_contours.
    destruct (filter is_valid_contour contours) as [|v vs] eqn:Ef.
    + split.
      * intros Hin. split; [exact Hin |]. right.
        apply Forall_forall. intros c' Hc'.
        destruct (is_valid_contour c') eqn:Ev.
        -- assert (In c' (filter is_valid_contour contours)) as Hf
             by (apply filter_In; auto).
           rewrite Ef in Hf. contradiction.
        -- unfold is_valid_contour in Ev. apply Z.ltb_ge in Ev. exact Ev.
      * intros [Hin _]. exact Hin.
    + rewrite <- Ef, filter_In. unfold is_valid_contour. rewrite Z.ltb_lt.
      split.
      * intros [Hin Hv]. auto.
      * intros [Hin [Hv | Hall]]; [auto |].
        exfalso. assert (In v (filter is_valid_contour contours)) as Hf by (rewrite Ef; left; auto).
        apply filter_In in Hf as [Hv1 Hv2]. rewrite Forall_forall in Hall.
        specialize (Hall v Hv1). unfold is_valid_contour in Hv2. apply Z.ltb_lt in Hv2. lia.
  - unfold locate_letter. rewrite Hread. fold contours.
    destruct contours as [|c0 cs] eqn:Ec; [contradiction |].
    destruct (bounding_rect _) as [[[x y] w] h]. reflexivity.
Qed.

Lemma C7_witness :
  sample_read "my_letters/a/1.png" = Some sample_a
  /\ sample_contours ((fun m => m) sample_a) <> []
  /\ let contours := sample_contours ((fun m => m) sample_a) in
  (forall cnt, In cnt (retained_contours contours)
               <-> In cnt contours
                   /\ (20 < area2 cnt \/ Forall (fun c' => area2 c' <= 20) contours))
  /\ locate_letter mat sample_read (fun m => m) sample_contours "my_letters/a/1.png"
     = Some (let '(x, y, w, h) := bounding_rect (concat (retained_contours contours)) in
             pad_border 10 (crop ((fun m => m) sample_a) x y w h)).
Proof.
  split; [reflexivity | split; [discriminate |]].
  apply (C7_contour_filter mat sample_read (fun m => m) sample_contours "my_letters/a/1.png" sample_a);
    [reflexivity | discriminate].
Defined.

(** C3: the wrap decision is taken once per word, from the cursor and the
    word's total width: on overflow the cursor moves to [(start_x, y +
    line_height)] before the first paste, and every glyph of the word is
    pasted on that one line, left to right from that cursor. *)
Theorem C3_wrap_once_per_word Img imread otsu_binarize find_contours resize_area RNG
    randbelow listdir (e : Engine) (s : state RNG) (word : list ascii) (s' : state RNG) :
  word_step Img imread otsu_binarize find_contours resize_area RNG randbelow listdir
    e s word = Ok s' ->
  exists items,
    (exists st', word_items Img imread otsu_binarize find_contours resize_area RNG randbelow
                   listdir e (rng s) word = Ok (items, items_width items, st'))
    /\ let wrap := curr_x s + items_width items >? max_x in
       let x0 := if wrap then start_x else curr_x s in
       let y0 := if wrap then curr_y s + line_height else curr_y s in
       curr_y s' = y0
       /\ pastes s' = pastes s ++ fst (draw_items x0 y0 items)
       /\ Forall (fun p => paste_y p = y0) (fst (draw_items x0 y0 items))
       /\ curr_x s' = x0 + items_width items + pixels_per_space.
Proof.
  unfold word_step, word_items.
  destruct (word_items_aux _ _ _ _ _ _ _ _ e (rng s) [] 0 word)
    as [[[items t] st']|] eqn:Ew; [| discriminate].
  apply word_items_aux_total in Ew as Ht. destruct Ht as [fresh [Hi Ht]].
  simpl in Hi. subst fresh. simpl in Ht. subst t.
  simpl. unfold wrap_cursor.
  intros H. exists items. split; [exists st'; reflexivity |].
  cbv zeta.
  destruct (curr_x s + items_width items >? max_x);
  [ pose proof (draw_items_props start_x (curr_y s + line_height) items) as [Q1 Q2];
    destruct (draw_items start_x (curr_y s + line_height) items) as [ps x_end]
  | pose proof (draw_items_props (curr_x s) (curr_y s) items) as [Q1 Q2];
    destruct (draw_items (curr_x s) (curr_y s) items) as [ps x_end] ];
  simpl in *; injection H as <-; simpl; repeat split; auto; lia.
Qed.

Lemma C3_witness :
  word_step mat sample_read (fun m => m) sample_contours resize_nearest nat
    sample_randbelow sample_dir engine_default sample_state (list_ascii_of_string "a")
  = Ok sample_after
  /\ exists items,
    (exists st', word_items mat sample_read (fun m => m) sample_contours resize_nearest nat
                   sample_randbelow sample_dir engine_default (rng sample_state)
                   (list_ascii_of_string "a") = Ok (items, items_width items, st'))
    /\ let wrap := curr_x sample_state + items_width items >? max_x in
       let x0 := if wrap then start_x else curr_x sample_state in
       let y0 := if wrap then curr_y sample_state + line_height else curr_y sample_state in
       curr_y sample_after = y0
       /\ pastes sample_after = pastes sample_state ++ fst (draw_items x0 y0 items)
       /\ Forall (fun p => paste_y p = y0) (fst (draw_items x0 y0 items))
       /\ curr_x sample_after = x0 + items_width items + pixels_per_space.
Proof.
  split; [vm_compute; reflexivity |].
  apply (C3_wrap_once_per_word mat sample_read (fun m => m) sample_contours resize_nearest nat
           sample_randbelow sample_dir engine_default sample_state (list_ascii_of_string "a")).
  vm_compute. reflexivity.
Defined.

(** C4: a character whose folder is missing, holds no image file, or whose
    chosen sample normalizes to [None] is recorded as [(None, fallback_width)]
    without raising; drawing that item pastes nothing and advances the
    cursor by [fallback_width] (25 pixels). *)
Theorem C4_fallback_placeholder Img imread otsu_binarize find_contours resize_area RNG
    randbelow listdir (e : Engine) (st : RNG) (c : ascii) (x y : Z) (rest : list item) :
  let char_dir := path_join (base_path e) (folder_name c) in
  (listdir char_dir = None
   \/ (exists entries, listdir char_dir = Some entries /\ filter is_image_file entries = [])
   \/ (exists entries, listdir char_dir = Some entries
        /\ filter is_image_file entries <> []
        /\ process_letter_contour Img imread otsu_binarize find_contours resize_area e
             (path_join char_dir
                (fst (random_choice RNG randbelow st (filter is_image_file entries)))) c
           = Ok None)) ->
  (exists st', char_item Img imread otsu_binarize find_contours resize_area RNG randbelow
                 listdir e st c = Ok ((None, fallback_width), st'))
  /\ draw_items x y ((None, fallback_width) :: rest) = draw_items (x + fallback_width) y rest
  /\ fallback_width = 25.
Proof.
  intros char_dir Hfail.
  split; [| split; [| reflexivity]].
  2:{ simpl. destruct (draw_items (x + fallback_width) y rest); reflexivity. }
  unfold char_item, process. fold char_dir.
  destruct Hfail as [H | [[entries [H1 H2]] | [entries [H1 [H2 H3]]]]].
  - rewrite H. eauto.
  - rewrite H1, H2. eauto.
  - rewrite H1. destruct (filter is_image_file entries) as [|v vs] eqn:Ef; [contradiction |].
    destruct (random_choice RNG randbelow st (v :: vs)) as [f st'] eqn:Er.
    simpl in H3. rewrite H3. simpl. eauto.
Qed.

Lemma C4_witness :
  let char_dir := path_join (base_path engine_default) (folder_name "z") in
  (sample_dir char_dir = None
   \/ (exists entries, sample_dir char_dir = Some entries /\ filter is_image_file entries = [])
   \/ (exists entries, sample_dir char_dir = Some entries
        /\ filter is_image_file entries <> []
        /\ process_letter_contour mat sample_read (fun m => m) sample_contours resize_nearest
             engine_default
             (path_join char_dir
                (fst (random_choice nat sample_randbelow 0%nat (filter is_image_file entries))))
             "z" = Ok None))
  /\ (exists st', char_item mat sample_read (fun m => m) sample_contours resize_nearest nat
                    sample_randbelow sample_dir engine_default 0%nat "z"
                  = Ok ((None, fallback_width), st'))
  /\ draw_items 200 200 [(None, fallback_width)] = draw_items (200 + fallback_width) 200 []
  /\ fallback_width = 25.
Proof.
  split; [left; vm_compute; reflexivity |].
  apply (C4_fallback_placeholder mat sample_read (fun m => m) sample_contours resize_nearest nat
           sample_randbelow sample_dir engine_default 0%nat "z" 200 200 []).
  left; vm_compute; reflexivity.
Defined.

(** C9: normalization draws no randomness: the item recorded for a
    character depends on the state of the [random] module only through the
    sample [random.choice] picks; the same pick gives the same glyph. *)
Theorem C9_normalization_deterministic Img imread otsu_binarize find_contours resize_area RNG
    randbelow listdir (e : Engine) (c : ascii) (st1 st2 : RNG) :
  (forall n, fst (randbelow st1 n) = fst (randbelow st2 n)) ->
  res_map fst (char_item Img imread otsu_binarize find_contours resize_area RNG randbelow
                 listdir e st1 c)
  = res_map fst (char_item Img imread otsu_binarize find_contours resize_area RNG randbelow
                   listdir e st2 c).
Proof.
  intros Hpick. unfold char_item, random_choice.
  destruct (listdir _) as [entries|]; [| reflexivity].
  destruct (filter is_image_file entries) as [|v vs]; [reflexivity |].
  specialize (Hpick (length (v :: vs))).
  destruct (randbelow st1 _) as [i1 s1], (randbelow st2 _) as [i2 s2].
  simpl in Hpick. subst i2.
  destruct (process _ _ _ _ _ e _ c) as [[g|]|]; reflexivity.
Qed.

Lemma C9_witness :
  (forall n, fst (sample_pick_first 3 n) = fst (sample_pick_first 7 n))
  /\ res_map fst (char_item mat sample_read (fun m => m) sample_contours resize_nearest nat
                    sample_pick_first sample_dir engine_default 3%nat "a")
     = res_map fst (char_item mat sample_read (fun m => m) sample_contours resize_nearest nat
                      sample_pick_first sample_dir engine_default 7%nat "a").
Proof.
  split; [intros n; reflexivity |].
  apply (C9_normalization_deterministic mat sample_read (fun m => m) sample_contours
           resize_nearest nat sample_pick_first sample_dir engine_default "a" 3%nat 7%nat).
  intros n; reflexivity.
Defined.

(** ** Further properties of the code *)

Lemma in_all_ascii (c : ascii) : In c all_ascii.
Proof.
  unfold all_ascii. rewrite <- (ascii_nat_embedding c) at 1.
  apply in_map. apply in_seq. pose proof (nat_ascii_bounded c). lia.
Qed.

Lemma folder_collision_all :
  forallb (fun c => forallb (fun d => folder_collision_ok c d) all_ascii) all_ascii = true.
Proof. vm_compute. reflexivity. Qed.

(** Characters share a sample folder only when they are the same character,
    or two characters outside [SPECIAL_CHAR_MAP] that agree up to case. *)
Theorem folder_name_same_iff (c d : ascii) :
  folder_name c = folder_name d
  <-> c = d \/ (special_char_map c = None /\ special_char_map d = None /\ lower c = lower d).
Proof.
  pose proof folder_collision_all as H.
  rewrite forallb_forall in H. specialize (H c (in_all_ascii c)).
  rewrite forallb_forall in H. specialize (H d (in_all_ascii d)).
  unfold folder_collision_ok in H. apply Bool.eqb_prop in H.
  rewrite <- String.eqb_eq. rewrite H.
  rewrite !orb_true_iff, !andb_true_iff, !Ascii.eqb_eq.
  destruct (special_char_map c), (special_char_map d); simpl;
  intuition discriminate.
Qed.

Lemma lower_idem_all : forallb (fun c => Ascii.eqb (lower (lower c)) (lower c)) all_ascii = true.
Proof. vm_compute. reflexivity. Qed.

Lemma lower_idem (c : ascii) : lower (lower c) = lower c.
Proof.
  pose proof lower_idem_all as H. rewrite forallb_forall in H.
  apply Ascii.eqb_eq. apply H, in_all_ascii.
Qed.

(** [process_letter_contour] depends on [char_ref] only through
    [char_ref.lower()]: a capital letter is normalized as its small letter. *)
Theorem process_case_insensitive Img imread otsu_binarize find_contours resize_area
    (e : Engine) (p : string) (c : ascii) :
  process_letter_contour Img imread otsu_binarize find_contours resize_area e p c
  = process_letter_contour Img imread otsu_binarize find_contours resize_area e p (lower c).
Proof.
  assert (Hp : placement c = placement (lower c)) by (unfold placement; rewrite lower_idem; reflexivity).
  unfold process_letter_contour, compose_letter. rewrite Hp. reflexivity.
Qed.

Lemma norm_idx_in (i len : Z) : 0 <= i <= len -> norm_idx i len = i.
Proof. intros H. unfold norm_idx. destruct (i <? 0) eqn:E; [apply Z.ltb_lt in E | ]; lia. Qed.

Lemma py_slice_middle {A} (a b c : list A) :
  py_slice (a ++ b ++ c) (Z.of_nat (length a)) (Z.of_nat (length a) + Z.of_nat (length b)) = b.
Proof.
  unfold py_slice. rewrite !length_app.
  rewrite !norm_idx_in by lia.
  replace (Z.to_nat (Z.of_nat (length a) + Z.of_nat (length b) - Z.of_nat (length a)))
    with (length b) by lia.
  rewrite Nat2Z.id, skipn_app, skipn_all, Nat.sub_diag. simpl.
  rewrite firstn_app, Nat.sub_diag, firstn_all. simpl. apply app_nil_r.
Qed.

(** Cropping the padded crop at offset [p] gives back the crop: the border
    added by [cv2.copyMakeBorder] is exactly [p] pixels on each side and the
    ink is left untouched; the padded crop is [2p] larger both ways. *)
Theorem pad_border_crop_roundtrip (p : Z) (m : mat) :
  0 <= p -> rows_of (Z.to_nat (mat_w m)) m ->
  crop (pad_border p m) p p (mat_w m) (mat_h m) = m
  /\ mat_h (pad_border p m) = mat_h m + 2 * p
  /\ (m <> [] -> mat_w (pad_border p m) = mat_w m + 2 * p).
Proof.
  intros Hp Hrows. unfold pad_border.
  set (n := Z.to_nat p). set (w := (Z.to_nat (mat_w m) + 2 * n)%nat).
  assert (Hlen : length (repeat (repeat 0 w) n) = n) by apply repeat_length.
  split; [| split].
  - unfold crop, mat_h.
    replace p with (Z.of_nat (length (repeat (repeat 0 w) n))) at 1 2 by (rewrite Hlen; unfold n; lia).
    replace (Z.of_nat (length m)) with (Z.of_nat (length (map (fun row => repeat 0 n ++ row ++ repeat 0 n) m)))
      by (rewrite length_map; reflexivity).
    rewrite py_slice_middle.
    rewrite map_map. rewrite <- (map_id m) at 2. apply map_ext_in.
    intros row Hrow. unfold rows_of in Hrows. rewrite Forall_forall in Hrows. specialize (Hrows row Hrow).
    replace p with (Z.of_nat (length (repeat 0 n))) by (rewrite repeat_length; unfold n; lia).
    replace (mat_w m) with (Z.of_nat (length row)).
    + apply py_slice_middle.
    + rewrite Hrows. destruct m; [contradiction | ]. simpl. lia.
  - unfold mat_h. rewrite !length_app, length_map, repeat_length. unfold n. lia.
  - intros Hne. destruct m as [|r m']; [contradiction |].
    assert (Hn : Z.of_nat n = p) by (unfold n; lia).
    clearbody n. subst w. subst p.
    destruct n as [|n']; simpl.
    + rewrite !length_app. simpl. lia.
    + rewrite repeat_length. simpl. lia.
Qed.

Lemma pad_border_crop_roundtrip_witness :
  0 <= 10 /\ rows_of (Z.to_nat (mat_w sample_a)) sample_a
  /\ (crop (pad_border 10 sample_a) 10 10 (mat_w sample_a) (mat_h sample_a) = sample_a
      /\ mat_h (pad_border 10 sample_a) = mat_h sample_a + 2 * 10
      /\ (sample_a <> [] -> mat_w (pad_border 10 sample_a) = mat_w sample_a + 2 * 10)).
Proof.
  assert (H : rows_of (Z.to_nat (mat_w sample_a)) sample_a)
    by (unfold rows_of; vm_compute; repeat constructor).
  split; [lia | split; [exact H |]].
  apply pad_border_crop_roundtrip; [lia | exact H].
Defined.

Lemma fold_min_le (f : Z * Z -> Z) (l : list (Z * Z)) (a : Z) :
  fold_left (fun acc q => Z.min acc (f q)) l a <= a
  /\ forall q, In q l -> fold_left (fun acc q => Z.min acc (f q)) l a <= f q.
Proof.
  revert a; induction l as [|q0 l IH]; intros a; simpl; [split; [lia | tauto] |].
  destruct (IH (Z.min a (f q0))) as [H1 H2]. split; [lia |].
  intros q [<- | Hq]; [lia | auto].
Qed.

Lemma fold_max_ge (f : Z * Z -> Z) (l : list (Z * Z)) (a : Z) :
  a <= fold_left (fun acc q => Z.max acc (f q)) l a
  /\ forall q, In q l -> f q <= fold_left (fun acc q => Z.max acc (f q)) l a.
Proof.
  revert a; induction l as [|q0 l IH]; intros a; simpl; [split; [lia | tauto] |].
  destruct (IH (Z.max a (f q0))) as [H1 H2]. split; [lia |].
  intros q [<- | Hq]; [lia | auto].
Qed.

(** [cv2.boundingRect] as used on line 31: every retained contour point lies
    inside the rectangle [x <= px < x + w], [y <= py < y + h]. *)
Theorem bounding_rect_contains (pts : list (Z * Z)) (px py : Z) :
  In (px, py) pts ->
  let '(x, y, w, h) := bounding_rect pts in
  x <= px < x + w /\ y <= py < y + h.
Proof.
  intros Hin. destruct pts as [|[x0 y0] rest]; [contradiction |].
  unfold bounding_rect. set (pts := (x0, y0) :: rest) in *.
  destruct (fold_min_le fst pts x0) as [_ A]. destruct (fold_max_ge fst pts x0) as [_ B].
  destruct (fold_min_le snd pts y0) as [_ C]. destruct (fold_max_ge snd pts y0) as [_ D].
  specialize (A _ Hin). specialize (B _ Hin). specialize (C _ Hin). specialize (D _ Hin).
  simpl in *. lia.
Qed.

Lemma bounding_rect_contains_witness :
  In (13, 24) stroke
  /\ let '(x, y, w, h) := bounding_rect stroke in
     x <= 13 < x + w /\ y <= 24 < y + h.
Proof.
  split; [vm_compute; tauto |].
  apply (bounding_rect_contains stroke 13 24). vm_compute. tauto.
Defined.

Lemma hmax_nth (prev : option Z) (r : list Z) (j : nat) :
  nth_error (hmax_aux prev r) j
  = option_map (fun u => match j with
                         | O => match prev with None => u | Some p => Z.max p u end
                         | S j' => Z.max (nth j' r 0) u
                         end) (nth_error r j).
Proof.
  revert prev j; induction r as [|v t IH]; intros prev j; destruct j as [|j]; simpl; auto.
  rewrite IH. destruct j; reflexivity.
Qed.

Lemma zip_max_nth (a b : list Z) (j : nat) :
  nth_error (zip_max a b) j
  = match nth_error a j, nth_error b j with
    | Some x, Some y => Some (Z.max x y)
    | _, _ => None
    end.
Proof.
  revert b j; induction a as [|x a IH]; intros [|y b] [|j]; simpl; auto.
  destruct (nth_error a j); reflexivity.
Qed.

Lemma dilate_nth (prev : option (list Z)) (m : mat) (i : nat) :
  nth_error (dilate_aux prev m) i
  = option_map (fun r => match i with
                         | O => match prev with
                                | None => hmax_aux None r
                                | Some p => zip_max p (hmax_aux None r)
                                end
                         | S i' => zip_max (hmax_aux None (nth i' m [])) (hmax_aux None r)
                         end) (nth_error m i).
Proof.
  revert prev i; induction m as [|r t IH]; intros prev i; destruct i as [|i]; simpl; auto.
  rewrite IH. destruct i; reflexivity.
Qed.

Lemma nth_error_row_some (n : nat) (m : mat) (i j : nat) (r : list Z) :
  rows_of n m -> nth_error m (S i) = Some r -> (j < length r)%nat ->
  nth_error (nth i m []) j = Some (nth j (nth i m []) 0).
Proof.
  intros Hrows Hr Hj. apply nth_error_nth'.
  assert (Hi : (S i < length m)%nat) by (apply nth_error_Some; congruence).
  unfold rows_of in Hrows. rewrite Forall_forall in Hrows.
  rewrite (Hrows (nth i m [])) by (apply nth_In; lia).
  rewrite (Hrows r) in Hj by (eapply nth_error_In; eauto). exact Hj.
Qed.

Lemma dilate_get_ge (n : nat) (m : mat) (i j : nat) (v : Z) :
  rows_of n m -> get m i j = Some v ->
  exists v', get (dilate2x2 m) i j = Some v' /\ v <= v'.
Proof.
  intros Hrows. unfold get, dilate2x2. rewrite dilate_nth.
  destruct (nth_error m i) as [r|] eqn:Er; [| discriminate]. simpl. intros Hv.
  assert (Hj : (j < length r)%nat) by (apply nth_error_Some; congruence).
  destruct i as [|i].
  - rewrite hmax_nth, Hv. simpl. eexists; split; [reflexivity |]. destruct j; lia.
  - rewrite zip_max_nth, !hmax_nth, Hv.
    rewrite (nth_error_row_some n m i j r Hrows Er Hj). simpl.
    eexists; split; [reflexivity |]. destruct j; lia.
Qed.

Lemma max_one_of (x y : Z) : Z.max x y = x \/ Z.max x y = y.
Proof. lia. Qed.

Lemma hmax_src (row : list Z) (j : nat) (u : Z) :
  nth_error (hmax_aux None row) j = Some u ->
  exists j', (j' = j \/ S j' = j) /\ nth_error row j' = Some u.
Proof.
  intros Hu. rewrite hmax_nth in Hu.
  destruct (nth_error row j) as [w|] eqn:Ew; [| discriminate]. simpl in Hu.
  injection Hu as <-. destruct j as [|j].
  - exists O. auto.
  - destruct (max_one_of (nth j row 0) w) as [E | E]; rewrite E.
    + exists j. split; [auto |]. apply nth_error_nth'.
      assert (S j < length row)%nat by (apply nth_error_Some; congruence). lia.
    + exists (S j). auto.
Qed.

Lemma dilate_get_src (m : mat) (i j : nat) (v : Z) :
  get (dilate2x2 m) i j = Some v ->
  exists i' j', (i' = i \/ S i' = i) /\ (j' = j \/ S j' = j) /\ get m i' j' = Some v.
Proof.
  unfold get, dilate2x2. rewrite dilate_nth.
  destruct (nth_error m i) as [r|] eqn:Er; [| discriminate]. simpl.
  destruct i as [|i].
  - intros Hu. destruct (hmax_src r j v Hu) as [j' [Hj' Hr']]. exists O, j'. rewrite Er. auto.
  - rewrite zip_max_nth.
    destruct (nth_error (hmax_aux None (nth i m [])) j) as [x|] eqn:Ex; [| discriminate].
    destruct (nth_error (hmax_aux None r) j) as [y|] eqn:Ey; [| discriminate].
    intros H. injection H as <-.
    destruct (max_one_of x y) as [E | E]; rewrite E.
    + destruct (hmax_src _ j x Ex) as [j' [Hj' Hr']]. exists i, j'. split; [auto | split; [auto |]].
      assert (Hi : (S i < length m)%nat) by (apply nth_error_Some; congruence).
      rewrite (nth_error_nth' m [] (n := i)) by lia. exact Hr'.
    + destruct (hmax_src _ j y Ey) as [j' [Hj' Hr']]. exists (S i), j'. rewrite Er. auto.
Qed.

Lemma threshold127_get (m : mat) (i j : nat) :
  get (threshold127 m) i j = option_map (fun v => if 127 <? v then 255 else 0) (get m i j).
Proof.
  unfold get, threshold127. rewrite nth_error_map.
  destruct (nth_error m i) as [r|]; simpl; [| reflexivity].
  rewrite nth_error_map. reflexivity.
Qed.

(** Ink flow (lines 113-115): the two dilations followed by the threshold at
    127 keep every pixel above 127 as full ink (255), and add ink only within
    two pixels below and to the right of a pixel that was above 127. *)
Theorem ink_flow_window (n : nat) (m : mat) (i j : nat) :
  rows_of n m ->
  (forall v, get m i j = Some v -> 127 < v ->
     get (threshold127 (dilate2x2 (dilate2x2 m))) i j = Some 255)
  /\ (get (threshold127 (dilate2x2 (dilate2x2 m))) i j = Some 255 ->
      exists i' j' v, (i' <= i <= i' + 2)%nat /\ (j' <= j <= j' + 2)%nat
                      /\ get m i' j' = Some v /\ 127 < v).
Proof.
  intros Hrows. split.
  - intros v Hv Hgt.
    destruct (dilate_get_ge n m i j v Hrows Hv) as [v1 [H1 L1]].
    destruct (dilate_get_ge n _ i j v1 (proj2 (dilate2x2_shape n m Hrows)) H1) as [v2 [H2 L2]].
    rewrite threshold127_get, H2. simpl.
    destruct (127 <? v2) eqn:E; [reflexivity | apply Z.ltb_ge in E; lia].
  - rewrite threshold127_get.
    destruct (get (dilate2x2 (dilate2x2 m)) i j) as [w|] eqn:Ew; [| discriminate].
    simpl. intros H. injection H as H.
    destruct (127 <? w) eqn:E; [apply Z.ltb_lt in E | discriminate].
    destruct (dilate_get_src _ i j w Ew) as [i1 [j1 [Hi1 [Hj1 G1]]]].
    destruct (dilate_get_src _ i1 j1 w G1) as [i2 [j2 [Hi2 [Hj2 G2]]]].
    exists i2, j2, w. repeat split; try lia; auto.
Qed.

Lemma ink_flow_window_witness :
  rows_of 20 sample_a
  /\ ((forall v, get sample_a 5 4 = Some v -> 127 < v ->
        get (threshold127 (dilate2x2 (dilate2x2 sample_a))) 5 4 = Some 255)
      /\ (get (threshold127 (dilate2x2 (dilate2x2 sample_a))) 5 4 = Some 255 ->
          exists i' j' v, (i' <= 5 <= i' + 2)%nat /\ (j' <= 4 <= j' + 2)%nat
                          /\ get sample_a i' j' = Some v /\ 127 < v)).
Proof.
  assert (H : rows_of 20 sample_a) by (unfold rows_of; vm_compute; repeat constructor).
  split; [exact H |]. apply (ink_flow_window 20 sample_a 5 4). exact H.
Defined.

Lemma to_rgba_alpha (ink : Z * Z * Z) (alpha : mat) (g : glyph) :
  Forall (Forall (fun v => v = 0 \/ v = 255)) alpha -> to_rgba ink alpha = Ok g ->
  Forall (Forall (fun px : pixel => let '(_, _, _, a) := px in a = 0 \/ a = 255)) g.
Proof.
  destruct ink as [[r gr] b]. unfold to_rgba. intros H.
  destruct (_ && _); [| discriminate]. intros E. injection E as <-.
  apply Forall_map. eapply Forall_impl; [| exact H]. intros row Hrow.
  apply Forall_map. eapply Forall_impl; [| exact Hrow]. intros v Hv. exact Hv.
Qed.

Lemma process_glyph_ok Img imread otsu_binarize find_contours resize_area e p c g :
  process_letter_contour Img imread otsu_binarize find_contours resize_area e p c = Ok (Some g) ->
  glyph_ok g.
Proof.
  unfold process_letter_contour.
  destruct (locate_letter _ _ _ _ p) as [roi|]; [| discriminate].
  destruct (compose_letter _ _ _ _) as [g'|] eqn:Ec; [| discriminate].
  simpl. intros H. injection H as <-.
  split; [destruct (compose_letter_shape _ _ _ _ _ Ec) as [nw [_ [L _]]]; exact L |].
  destruct (compose_letter_pixels _ _ _ _ _ Ec) as [alpha Ea].
  exact (to_rgba_alpha _ _ _ (threshold127_binary alpha) Ea).
Qed.

Lemma StronglySorted_app_le (l1 l2 : list Z) :
  StronglySorted Z.le l1 -> StronglySorted Z.le l2 ->
  (forall x y, In x l1 -> In y l2 -> x <= y) ->
  StronglySorted Z.le (l1 ++ l2).
Proof.
  induction l1 as [|x l1 IH]; intros H1 H2 Hx; simpl; auto.
  inversion H1; subst. constructor.
  - apply IH; auto. intros a b Ha Hb. apply Hx; simpl; auto.
  - apply Forall_app. split; auto.
    apply Forall_forall. intros b Hb. apply Hx; simpl; auto.
Qed.

Lemma StronglySorted_const (y : Z) (l : list Z) :
  Forall (fun v => v = y) l -> StronglySorted Z.le l.
Proof.
  induction l as [|v l IH]; intros H; [constructor |].
  inversion H as [|? ? Hv Hl]; subst.
  constructor; [apply IH; exact Hl |].
  eapply Forall_impl; [| exact Hl]. intros a Ha. simpl in Ha. lia.
Qed.

Lemma draw_items_ok (x y : Z) (items : list item) :
  Forall item_ok items ->
  Forall (fun p => glyph_ok (paste_img p) /\ x <= paste_x p /\ paste_y p = y)
         (fst (draw_items x y items))
  /\ x <= snd (draw_items x y items).
Proof.
  revert x; induction items as [|[img width] rest IH]; intros x Hok; simpl; [split; auto; lia |].
  inversion Hok as [|? ? [Hw Hg] Hrest]; subst. simpl in Hw, Hg.
  destruct (IH (x + width) Hrest) as [IH1 IH2].
  destruct (draw_items (x + width) y rest) as [ps x_end]. simpl in *.
  split; [| lia].
  assert (Hps : Forall (fun p => glyph_ok (paste_img p) /\ x <= paste_x p /\ paste_y p = y) ps).
  { eapply Forall_impl; [| exact IH1]. intros p [A [B C]]. cbv beta in *. split; [assumption | repeat split; lia]. }
  destruct img as [g|]; auto.
  constructor; auto. simpl. split; [auto | repeat split; lia].
Qed.

Lemma split_on_length (sep : ascii) (s : list ascii) :
  length (split_on sep s) = S (count_char sep s).
Proof.
  unfold count_char. induction s as [|c t IH]; simpl; auto.
  destruct (Ascii.eqb c sep) eqn:E.
  - simpl. rewrite IH. reflexivity.
  - destruct (split_on sep t) as [|w ws] eqn:Es; simpl in *; [discriminate | exact IH].
Qed.

Lemma draw_items_no_image (x y : Z) (items : list item) :
  Forall (fun it => fst it = None) items -> fst (draw_items x y items) = [].
Proof.
  revert x; induction items as [|[img width] rest IH]; intros x H; simpl; auto.
  inversion H; subst. simpl in *. subst img.
  specialize (IH (x + width) H3). destruct (draw_items (x + width) y rest). simpl in *. auto.
Qed.

Section PageLayout.

Variable Img : Type.
Variable imread : string -> option Img.
Variable otsu_binarize : Img -> mat.
Variable find_contours : mat -> list contour.
Variable resize_area : mat -> Z -> Z -> mat.
Variable RNG : Type.
Variable randbelow : RNG -> nat -> nat * RNG.
Variable listdir : string -> option (list string).
Variable e : Engine.

Local Abbreviation char_item' :=
  (char_item Img imread otsu_binarize find_contours resize_area RNG randbelow listdir e).
Local Abbreviation word_items_aux' :=
  (word_items_aux Img imread otsu_binarize find_contours resize_area RNG randbelow listdir e).
Local Abbreviation word_step' :=
  (word_step Img imread otsu_binarize find_contours resize_area RNG randbelow listdir e).
Local Abbreviation words_loop' :=
  (words_loop Img imread otsu_binarize find_contours resize_area RNG randbelow listdir e).
Local Abbreviation lines_loop' :=
  (lines_loop Img imread otsu_binarize find_contours resize_area RNG randbelow listdir e).
Local Abbreviation generate' :=
  (generate Img imread otsu_binarize find_contours resize_area RNG randbelow listdir e).

Lemma char_item_ok (st : RNG) (c : ascii) (it : item) (st' : RNG) :
  char_item' st c = Ok (it, st') -> item_ok it.
Proof.
  assert (Hfb : item_ok (None, fallback_width)).
  { split; [vm_compute; discriminate | intros g H; discriminate]. }
  unfold char_item.
  destruct (listdir _) as [entries|]; [| intros H; injection H as <- _; exact Hfb].
  destruct (filter is_image_file entries) as [|v vs]; [intros H; injection H as <- _; exact Hfb |].
  destruct (random_choice RNG randbelow st (v :: vs)) as [f st1].
  destruct (process _ _ _ _ _ e _ c) as [[g|]|] eqn:Hp; simpl; [| | discriminate];
    intros H; injection H as <- _; [| exact Hfb].
  split; simpl; [unfold glyph_width, char_spacing; destruct g; lia |].
  intros g' Hg. injection Hg as <-. eapply process_glyph_ok. exact Hp.
Qed.

Lemma word_items_aux_ok (word : list ascii) :
  forall st acc total items t st',
  Forall item_ok acc -> word_items_aux' st acc total word = Ok (items, t, st') ->
  Forall item_ok items.
Proof.
  induction word as [|c cs IH]; intros st acc total items t st' Hacc H; simpl in H.
  - injection H as <- _ _. exact Hacc.
  - destruct (char_item' st c) as [[[img width] st1]|] eqn:Hc; [| discriminate].
    simpl in H. apply IH in H; auto.
    apply Forall_app. split; auto. constructor; auto. eapply char_item_ok. exact Hc.
Qed.

Lemma page_inv_word_step (s : state RNG) (w : list ascii) (s' : state RNG) :
  page_inv s -> word_step' s w = Ok s' -> page_inv s' /\ curr_y s <= curr_y s'.
Proof.
  intros [Hx [Hy [Hps Hsort]]]. unfold word_step, word_items.
  destruct (word_items_aux' (rng s) [] 0 w) as [[[items t] st']|] eqn:Ew; [| discriminate].
  pose proof (word_items_aux_ok w _ _ _ _ _ _ (Forall_nil _) Ew) as Hok.
  simpl. unfold wrap_cursor.
  set (pos := if curr_x s + t >? max_x then (start_x, curr_y s + line_height)
              else (curr_x s, curr_y s)).
  assert (Hpos : start_x <= fst pos /\ curr_y s <= snd pos).
  { unfold pos. destruct (_ >? _); simpl; unfold line_height; lia. }
  destruct pos as [x0 y0]. simpl in Hpos.
  destruct (draw_items_ok x0 y0 items Hok) as [D1 D2].
  destruct (draw_items x0 y0 items) as [ps x_end]. simpl in D1, D2.
  intros H. injection H as <-. simpl.
  split; [| lia].
  unfold page_inv; simpl.
  assert (Hpps : pixels_per_space = 20) by reflexivity. rewrite Hpps.
  split; [lia |].
  split; [lia |].
  split.
  - apply Forall_app. split.
    + eapply Forall_impl; [| exact Hps]. intros p [A [B [C D]]]. cbv beta in *. split; [assumption | repeat split; lia].
    + eapply Forall_impl; [| exact D1]. intros p [A [B C]]. cbv beta in *. split; [assumption | repeat split; lia].
  - rewrite map_app. apply StronglySorted_app_le; auto.
    + apply (StronglySorted_const y0). apply Forall_map.
      eapply Forall_impl; [| exact D1]. intros p [_ [_ C]]. exact C.
    + intros a b Ha Hb. apply in_map_iff in Ha as [pa [<- Ha]].
      apply in_map_iff in Hb as [pb [<- Hb]].
      rewrite Forall_forall in Hps, D1. destruct (Hps pa Ha) as [_ [_ [_ A]]].
      destruct (D1 pb Hb) as [_ [_ B]]. lia.
Qed.

Lemma page_inv_words_loop (ws : list (list ascii)) :
  forall s s', page_inv s -> words_loop' s ws = Ok s' -> page_inv s' /\ curr_y s <= curr_y s'.
Proof.
  induction ws as [|w ws IH]; intros s s' Hinv H; simpl in H.
  - injection H as <-. split; [exact Hinv | lia].
  - destruct (word_step' s w) as [s1|] eqn:Hs; [| discriminate]. simpl in H.
    destruct (page_inv_word_step s w s1 Hinv Hs) as [I1 L1].
    destruct (IH s1 s' I1 H) as [I2 L2]. split; [exact I2 | lia].
Qed.

Lemma page_inv_lines_loop (ls : list (list ascii)) :
  forall s s', page_inv s -> lines_loop' s ls = Ok s' ->
  page_inv s' /\ curr_y s + line_height * Z.of_nat (length ls) <= curr_y s'
  /\ (ls <> [] -> curr_x s' = start_x).
Proof.
  induction ls as [|l ls IH]; intros s s' Hinv H; simpl in H.
  - injection H as <-. simpl. split; [exact Hinv | split; [lia | tauto]].
  - destruct (words_loop' s (split_on " " l)) as [s1|] eqn:Hs; [| discriminate]. simpl in H.
    destruct (page_inv_words_loop _ s s1 Hinv Hs) as [[X1 [Y1 [P1 S1]]] L1].
    assert (I2 : page_inv (mkState start_x (curr_y s1 + line_height) (pastes s1) (rng s1))).
    { split; [simpl; lia |]. split; [simpl; unfold line_height; lia |]. split; [| exact S1].
      simpl. eapply Forall_impl; [| exact P1]. intros p [A [B [C D]]].
      cbv beta in *. split; [assumption | repeat split; unfold line_height in *; lia]. }
    destruct (IH _ s' I2 H) as [I3 [L3 X3]]. cbn [curr_y] in L3.
    split; [exact I3 | split].
    + simpl length. rewrite Nat2Z.inj_succ. unfold line_height in *. lia.
    + intros _. destruct ls as [|l' ls'].
      * simpl in H. injection H as <-. reflexivity.
      * apply X3. discriminate.
Qed.

(** The layout of [generate]: every paste lies at or right of the left
    margin [start_x = 200] and at or below [start_y0 = 200], the paste calls
    go top to bottom, the cursor ends back at the left margin, and it ends at
    least one [line_height] lower per newline-separated line of the text. *)
Theorem generate_layout (st : RNG) (text : list ascii) (s : state RNG) :
  generate' st text = Ok s ->
  Forall (fun p => start_x <= paste_x p /\ start_y0 <= paste_y p) (pastes s)
  /\ StronglySorted Z.le (map paste_y (pastes s))
  /\ curr_x s = start_x
  /\ start_y0 + line_height * (1 + Z.of_nat (count_char (ascii_of_nat 10) text)) <= curr_y s.
Proof.
  unfold generate. intros H.
  assert (I0 : page_inv (mkState start_x start_y0 [] st)).
  { split; [simpl; lia | split; [simpl; lia | split; constructor]]. }
  destruct (page_inv_lines_loop _ _ s I0 H) as [[X [Y [P S]]] [L C]].
  rewrite split_on_length, Nat2Z.inj_succ in L. cbn [curr_y] in L.
  split; [| split; [exact S | split]].
  - eapply Forall_impl; [| exact P]. intros p [_ [A [B _]]]. auto.
  - apply C. intros E. pose proof (split_on_length (ascii_of_nat 10) text) as E2.
    rewrite E in E2. discriminate.
  - unfold line_height in *. lia.
Qed.

(** Every glyph [generate] pastes on the page is a normalized glyph:
    [std_size] rows and an alpha channel of 0 and 255 only. *)
Theorem generate_pastes_normalized (st : RNG) (text : list ascii) (s : state RNG) :
  generate' st text = Ok s ->
  Forall (fun p => Z.of_nat (length (paste_img p)) = std_size
                   /\ Forall (Forall (fun px : pixel =>
                        let '(_, _, _, a) := px in a = 0 \/ a = 255)) (paste_img p))
         (pastes s).
Proof.
  unfold generate. intros H.
  assert (I0 : page_inv (mkState start_x start_y0 [] st)).
  { split; [simpl; lia | split; [simpl; lia | split; constructor]]. }
  destruct (page_inv_lines_loop _ _ s I0 H) as [[_ [_ [P _]]] _].
  eapply Forall_impl; [| exact P]. intros p [A _]. exact A.
Qed.

End PageLayout.

Lemma generate_layout_witness :
  generate mat sample_read (fun m => m) sample_contours resize_nearest nat
    sample_randbelow sample_dir engine_default 0%nat
    (list_ascii_of_string "a zb" ++ [ascii_of_nat 10] ++ list_ascii_of_string "aa")
  = Ok sample_page
  /\ Forall (fun p => start_x <= paste_x p /\ start_y0 <= paste_y p) (pastes sample_page)
  /\ StronglySorted Z.le (map paste_y (pastes sample_page))
  /\ curr_x sample_page = start_x
  /\ start_y0 + line_height * (1 + Z.of_nat (count_char (ascii_of_nat 10)
        (list_ascii_of_string "a zb" ++ [ascii_of_nat 10] ++ list_ascii_of_string "aa")))
     <= curr_y sample_page.
Proof.
  split; [vm_compute; reflexivity |].
  apply (generate_layout mat sample_read (fun m => m) sample_contours resize_nearest nat
           sample_randbelow sample_dir engine_default 0%nat
           (list_ascii_of_string "a zb" ++ [ascii_of_nat 10] ++ list_ascii_of_string "aa")).
  vm_compute. reflexivity.
Defined.

Lemma generate_pastes_normalized_witness :
  generate mat sample_read (fun m => m) sample_contours resize_nearest nat
    sample_randbelow sample_dir engine_default 0%nat
    (list_ascii_of_string "a zb" ++ [ascii_of_nat 10] ++ list_ascii_of_string "aa")
  = Ok sample_page
  /\ Forall (fun p => Z.of_nat (length (paste_img p)) = std_size
                   /\ Forall (Forall (fun px : pixel =>
                        let '(_, _, _, a) := px in a = 0 \/ a = 255)) (paste_img p))
         (pastes sample_page).
Proof.
  split; [vm_compute; reflexivity |].
  apply (generate_pastes_normalized mat sample_read (fun m => m) sample_contours resize_nearest nat
           sample_randbelow sample_dir engine_default 0%nat
           (list_ascii_of_string "a zb" ++ [ascii_of_nat 10] ++ list_ascii_of_string "aa")).
  vm_compute. reflexivity.
Defined.

Section MissingFolders.

Variable Img : Type.
Variable imread : string -> option Img.
Variable otsu_binarize : Img -> mat.
Variable find_contours : mat -> list contour.
Variable resize_area : mat -> Z -> Z -> mat.
Variable RNG : Type.
Variable randbelow : RNG -> nat -> nat * RNG.
Variable listdir : string -> option (list string).
Variable e : Engine.
Hypothesis no_folders : forall d, listdir d = None.

Local Abbreviation char_item' :=
  (char_item Img imread otsu_binarize find_contours resize_area RNG randbelow listdir e).
Local Abbreviation word_items_aux' :=
  (word_items_aux Img imread otsu_binarize find_contours resize_area RNG randbelow listdir e).
Local Abbreviation word_step' :=
  (word_step Img imread otsu_binarize find_contours resize_area RNG randbelow listdir e).
Local Abbreviation words_loop' :=
  (words_loop Img imread otsu_binarize find_contours resize_area RNG randbelow listdir e).
Local Abbreviation lines_loop' :=
  (lines_loop Img imread otsu_binarize find_contours resize_area RNG randbelow listdir e).

Lemma char_item_no_folder (st : RNG) (c : ascii) :
  char_item' st c = Ok ((None, fallback_width), st).
Proof. unfold char_item. rewrite no_folders. reflexivity. Qed.

Lemma word_items_aux_no_folder (word : list ascii) :
  forall st acc total, Forall (fun it => fst it = None) acc ->
  exists items t, word_items_aux' st acc total word = Ok (items, t, st)
                  /\ Forall (fun it => fst it = None) items.
Proof.
  induction word as [|c cs IH]; intros st acc total Hacc; simpl.
  - exists acc, total. auto.
  - rewrite char_item_no_folder. simpl. apply IH.
    apply Forall_app. split; [exact Hacc | constructor; auto].
Qed.

Lemma words_loop_no_folder (words : list (list ascii)) :
  forall s, exists s', words_loop' s words = Ok s' /\ pastes s' = pastes s /\ rng s' = rng s.
Proof.
  induction words as [|w ws IH]; intros s; simpl.
  - exists s. auto.
  - unfold word_step, word_items.
    destruct (word_items_aux_no_folder w (rng s) (@nil item) 0%Z (Forall_nil _)) as [items [t [E F]]].
    rewrite E. simpl.
    destruct (wrap_cursor (curr_x s) (curr_y s) t) as [x y].
    pose proof (draw_items_no_image x y items F) as D.
    destruct (draw_items x y items) as [ps x_end]. simpl in D. subst ps. simpl.
    destruct (IH (mkState (x_end + pixels_per_space) y (pastes s ++ []) (rng s)))
      as [s' [E' [P R]]].
    exists s'. split; [exact E' |]. rewrite P, R. simpl. rewrite app_nil_r. auto.
Qed.

Lemma lines_loop_no_folder (lines : list (list ascii)) :
  forall s, exists s', lines_loop' s lines = Ok s' /\ pastes s' = pastes s /\ rng s' = rng s.
Proof.
  induction lines as [|l ls IH]; intros s; simpl.
  - exists s. auto.
  - destruct (words_loop_no_folder (split_on " " l) s) as [s1 [E [P R]]].
    rewrite E. simpl.
    destruct (IH (mkState start_x (curr_y s1 + line_height) (pastes s1) (rng s1)))
      as [s' [E' [P' R']]].
    exists s'. split; [exact E' |]. simpl in P', R'. rewrite P', R', P, R. auto.
Qed.

(** When no letter folder can be listed, [generate] still succeeds on every
    text: it pastes nothing (a blank page) and draws no random number. *)
Theorem generate_blank_without_folders (st : RNG) (text : list ascii) :
  exists s, generate Img imread otsu_binarize find_contours resize_area RNG randbelow listdir e
              st text = Ok s /\ pastes s = [] /\ rng s = st.
Proof.
  unfold generate.
  destruct (lines_loop_no_folder (split_on (ascii_of_nat 10) text)
              (mkState start_x start_y0 [] st)) as [s [E [P R]]].
  exists s. auto.
Qed.

End MissingFolders.

Lemma generate_blank_without_folders_witness :
  (forall d : string, (fun _ : string => @None (list string)) d = None)
  /\ exists s, generate mat sample_read (fun m => m) sample_contours resize_nearest nat
      sample_randbelow (fun _ => None) engine_default 0%nat
      (list_ascii_of_string "a zb" ++ [ascii_of_nat 10] ++ list_ascii_of_string "aa") = Ok s
    /\ pastes s = [] /\ rng s = 0%nat.
Proof.
  split; [intros d; reflexivity |].
  apply (generate_blank_without_folders mat sample_read (fun m => m) sample_contours
           resize_nearest nat sample_randbelow (fun _ => None) engine_default (fun d => eq_refl) 0%nat
           (list_ascii_of_string "a zb" ++ [ascii_of_nat 10] ++ list_ascii_of_string "aa")).
Defined.
